(** * useApiRequest: the request/state-synchronisation hook

    A shallow embedding of [useApiRequest] (the reducer [stateReducer], the
    initialiser [init], and the operations [sendRequest], [abort], [mutate]
    together with the mount effect), followed by the properties of the
    specification that concern it.

    Conventions of the embedding:
    - [seqRef.current] is a JavaScript number that starts at 0 and only ever
      grows by 1; it is modelled as a [Z] (the additions are exact far beyond
      any number of calls a page can make).
    - a value of TypeScript type [any] is a [any] below; [null] is [Null].
    - an optional property ([seq?: number]) is an [option]; [None] is the
      absent property.
    - user callbacks are opaque: running one is recorded as an [Invocation]
      in the hook's trace [invoked]; [setTimeout(f, 0)] appends the task [f]
      to the queue [macrotasks]; [console.log] appends to [console].
    - the reducer is applied when an action is dispatched, in dispatch
      order; a render copies the reducer's state into the snapshot the
      closures of the hook body read ([reducerState]).  React may put off
      the reduction of an action dispatched inside an event handler or an
      effect until the next render, where the guard reads the counter as it
      is by then; the two readings agree unless the counter moves between
      the dispatch and that render, and a property that depends on the
      moment of the reduction is stated for runs where a render follows the
      call.
    - a caller-supplied function returns, except in the part on exceptions,
      where a call either returns or throws ([Completion]).
    - [wrappedSendRequest] (debounce and throttle, whose utilities are not
      part of the sources at hand) is left out; every property below is
      about [sendRequest] itself. *)

From Stdlib Require Import ZArith List String Bool Lia.
Import ListNotations.
Local Open Scope string_scope.
Local Open Scope Z_scope.
Local Open Scope list_scope.
Set Warnings "-register-all".

(** ** Data model *)

(** JavaScript values carried as [any]. *)
Inductive any : Type :=
| Null
| Undefined
| Bool (b : bool)
| Num (n : Z)
| Str (s : string)
| Arr (items : list any)
| Obj (props : list (string * any)).

Record Error : Type := mkError { errorMessage : string }.

(** Modelled from the spec: the module [@/request/types] is not part of the
    sources at hand.  [ApiRequestData] is the [{code, message, payload}]
    object of a resolved request, [ApiRequestStateEnum] discriminates the
    transport result, and [ApiRequestParam] holds the four request
    properties; the properties the reducer's action declares optional
    ([data?], [error?]) stay optional in the result. *)
Record ApiRequestData : Type := mkData {
  data_code : Z;
  data_message : string;
  data_payload : any;
}.

Module ApiRequestStateEnum.
Inductive t : Type := success | error.
End ApiRequestStateEnum.

Record ApiRequestResult : Type := mkResult {
  result_state : ApiRequestStateEnum.t;
  result_data : option ApiRequestData;
  result_error : option Error;
}.

Record ApiRequestParam : Type := mkParam {
  path : option string;
  method : option string;
  requestQuery : option any;
  requestBody : option any;
}.

(** [ManualSendParam]: every property optional; [None] is an absent key,
    [Some None] a key that is present with the value [undefined]. *)
Record ManualSendParam : Type := mkManual {
  m_path : option (option string);
  m_method : option (option string);
  m_requestQuery : option (option any);
  m_requestBody : option (option any);
}.

Record UseApiInternalState : Type := mkState {
  loading : bool;
  code : option Z;
  message : option string;
  payload : any;
  error : option Error;
}.

(** The four values of [type]; the [default] branch of the reducer's switch
    is for none of them. *)
Inductive ActionType : Type := load | done | error_action | mutate_action.

Record UseApiReducerAction : Type := mkAction {
  seq : option Z;
  type : ActionType;
  data : option ApiRequestData;
  action_error : option Error;
  mutatedPayload : any;
}.

(** The object literal a reducer branch builds ([newState]): the properties
    it lists, each with its value. *)
Record PartialState : Type := mkPartial {
  p_loading : option bool;
  p_code : option (option Z);
  p_message : option (option string);
  p_payload : option any;
  p_error : option (option Error);
}.

(** The hook's configuration.  The five lifecycle callbacks and [popModal]
    are opaque and appear only through [Invocation]. *)
Record UseApiRequestParam : Type := mkConfig {
  cfg_path : option string;
  cfg_method : option string;
  cfg_requestBody : option any;
  cfg_requestQuery : option any;
  manual : bool;
  formatResult : option (any -> any);
}.

(** What the hook makes happen outside its own state. *)
Inductive Invocation : Type :=
| onLoad
| onSuccess (d : ApiRequestData)
| onFail (d : ApiRequestData)
| onError (e : Error)
| onUnsuccessful
| popModalOnApiResult (r : ApiRequestResult).

Inductive Effect : Type :=
| Call (i : Invocation)                 (* a callback run on the spot *)
| SetTimeout0 (task : list Invocation)  (* setTimeout(() => {...}, 0) *)
| ConsoleLog (line : string).

(** ** The reducer *)

(** Modelled from the spec: [useOptionalPersistFn] (module
    [@/hook/usePersisFn]) is not part of the sources at hand; it yields the
    caller's function when one is given and the fallback otherwise. *)
Definition useOptionalPersistFn {A : Type} (fn : option A) (fallback : A) : A :=
  match fn with
  | Some f => f
  | None => fallback
  end.

Definition defaultError : Error := mkError "网络请求错误".

(** [Object.assign({}, state, newState)]: an absent source is skipped, a
    listed property overwrites. *)
Definition Object_assign (state : UseApiInternalState)
    (newState : option PartialState) : UseApiInternalState :=
  match newState with
  | None => state
  | Some p =>
      mkState
        (match p_loading p with Some v => v | None => loading state end)
        (match p_code p with Some v => v | None => code state end)
        (match p_message p with Some v => v | None => message state end)
        (match p_payload p with Some v => v | None => payload state end)
        (match p_error p with Some v => v | None => error state end)
  end.

Definition isStale (current : Z) (action : UseApiReducerAction) : bool :=
  match seq action with
  | Some n => negb (current =? n)
  | None => false
  end.

Section Reducer.

Variable config : UseApiRequestParam.

(** [formatResult] after [useOptionalPersistFn(formatResult, (a) => a)]. *)
Definition persistedFormatResult : any -> any :=
  useOptionalPersistFn (formatResult config) (fun a => a).

(** [stateReducer], reading [seqRef.current] as [current]; the result is
    the next state with the effects of the call, in program order. *)
Definition stateReducer (current : Z) (state : UseApiInternalState)
    (action : UseApiReducerAction) : UseApiInternalState * list Effect :=
  if isStale current action then (state, [])
  else
    match type action with
    | load =>
        (Object_assign state
           (Some (mkPartial (Some true) None None None None)),
         [Call onLoad])
    | done =>
        match data action with
        | Some d =>
            let payload' := persistedFormatResult (data_payload d) in
            let newState :=
              mkPartial (Some false) (Some (Some (data_code d)))
                (Some (Some (data_message d))) (Some payload')
                (Some None) in
            let cloneData := d in
            (Object_assign state (Some newState),
             if data_code d =? 0
             then [SetTimeout0 [onSuccess cloneData]]
             else [SetTimeout0 [onFail cloneData; onUnsuccessful]])
        | None => (Object_assign state None, [])
        end
    | error_action =>
        let error' :=
          match action_error action with
          | Some e => e
          | None => defaultError
          end in
        (Object_assign state
           (Some (mkPartial (Some false) (Some None) (Some None)
                    (Some Null) (Some (Some error')))),
         [SetTimeout0 [onError error'; onUnsuccessful]])
    | mutate_action =>
        (Object_assign state
           (Some (mkPartial None None None
                    (Some (mutatedPayload action)) None)),
         [])
    end.

End Reducer.

(** ** The hook instance *)

Record Hook : Type := mkHook {
  seqRef : Z;                           (* seqRef.current *)
  store : UseApiInternalState;          (* the state useReducer holds *)
  reducerState : UseApiInternalState;   (* its value at the last render *)
  macrotasks : list (list Invocation);  (* pending setTimeout tasks, oldest first *)
  invoked : list Invocation;            (* callbacks run so far, oldest first *)
  console : list string;
  transport : list ApiRequestParam;     (* calls of sendApiRequest, oldest first *)
  inflight : list Z;                    (* currentSeq of each unsettled promise *)
}.

(** Operations of the hook thread the instance through. *)
Definition Op (A : Type) : Type := Hook -> A * Hook.

Definition ret {A : Type} (a : A) : Op A := fun h => (a, h).

Definition bind {A B : Type} (m : Op A) (k : A -> Op B) : Op B :=
  fun h => let (a, h') := m h in k a h'.

Notation "x <- m ;; k" := (bind m (fun x => k))
  (at level 61, m at next level, right associativity).
Notation "m ;; k" := (bind m (fun _ => k))
  (at level 61, right associativity).

Definition exec {A : Type} (m : Op A) (h : Hook) : Hook := snd (m h).

Definition getSeqRef : Op Z := fun h => (seqRef h, h).

Definition setSeqRef (n : Z) : Op unit := fun h =>
  (tt, mkHook n (store h) (reducerState h) (macrotasks h) (invoked h)
         (console h) (transport h) (inflight h)).

Definition getReducerState : Op UseApiInternalState :=
  fun h => (reducerState h, h).

Definition perform (e : Effect) : Op unit := fun h =>
  match e with
  | Call i =>
      (tt, mkHook (seqRef h) (store h) (reducerState h) (macrotasks h)
             (invoked h ++ [i]) (console h) (transport h) (inflight h))
  | SetTimeout0 task =>
      (tt, mkHook (seqRef h) (store h) (reducerState h)
             (macrotasks h ++ [task]) (invoked h) (console h) (transport h)
             (inflight h))
  | ConsoleLog line =>
      (tt, mkHook (seqRef h) (store h) (reducerState h) (macrotasks h)
             (invoked h) (console h ++ [line]) (transport h) (inflight h))
  end.

Fixpoint performAll (es : list Effect) : Op unit :=
  match es with
  | [] => ret tt
  | e :: es' => perform e ;; performAll es'
  end.

(** [sendApiRequest(actualArgs)]: the call is recorded and its promise, whose
    handlers captured [currentSeq], becomes pending. *)
Definition sendApiRequest (actualArgs : ApiRequestParam) (currentSeq : Z)
    : Op unit := fun h =>
  (tt, mkHook (seqRef h) (store h) (reducerState h) (macrotasks h) (invoked h)
         (console h) (transport h ++ [actualArgs]) (inflight h ++ [currentSeq])).

(** The argument of [mutate]: [typeof arg === "function"] or not. *)
Inductive MutateArg : Type :=
| Updater (f : any -> any)
| Literal (v : any).

(** How the promise of [sendApiRequest] settles. *)
Inductive Settlement : Type :=
| Fulfilled (result : ApiRequestResult)
| Rejected (reason : option string).   (* error?.toString() *)

(** [{path, method, requestBody, requestQuery, ...args}]: a key present in
    [args] replaces the configured one, whatever its value. *)
Definition overrideWith {A : Type} (configured : option A)
    (override : option (option A)) : option A :=
  match override with
  | Some v => v
  | None => configured
  end.

Section Dispatcher.

Variable config : UseApiRequestParam.

(** [init]. *)
Definition init : UseApiInternalState :=
  mkState (negb (manual config)) None None Null None.

(** [dispatch(action)]: the reducer runs on the held state and its effects
    take place. *)
Definition dispatch (action : UseApiReducerAction) : Op unit := fun h =>
  let (state', effects) := stateReducer config (seqRef h) (store h) action in
  performAll effects
    (mkHook (seqRef h) state' (reducerState h) (macrotasks h) (invoked h)
       (console h) (transport h) (inflight h)).

(** The destructured parameter [method = "GET"]. *)
Definition configuredMethod : option string :=
  match cfg_method config with
  | Some m => Some m
  | None => Some "GET"%string
  end.

Definition actualArgs (args : option ManualSendParam) : ApiRequestParam :=
  match args with
  | None =>
      mkParam (cfg_path config) configuredMethod (cfg_requestQuery config)
        (cfg_requestBody config)
  | Some a =>
      mkParam (overrideWith (cfg_path config) (m_path a))
        (overrideWith configuredMethod (m_method a))
        (overrideWith (cfg_requestQuery config) (m_requestQuery a))
        (overrideWith (cfg_requestBody config) (m_requestBody a))
  end.

(** [sendRequest]. *)
Definition sendRequest (args : option ManualSendParam) : Op unit :=
  n <- getSeqRef ;;
  setSeqRef (n + 1) ;;
  currentSeq <- getSeqRef ;;
  dispatch (mkAction (Some currentSeq) load None None Undefined) ;;
  sendApiRequest (actualArgs args) currentSeq.

(** The [.then] handler of [sendRequest], for the attempt that captured
    [currentSeq]. *)
Definition onFulfilled (currentSeq : Z) (result : ApiRequestResult)
    : Op unit :=
  match result_state result with
  | ApiRequestStateEnum.error =>
      dispatch (mkAction (Some currentSeq) error_action None
                  (result_error result) Undefined)
  | ApiRequestStateEnum.success =>
      dispatch (mkAction (Some currentSeq) done (result_data result) None
                  Undefined)
  end ;;
  perform (SetTimeout0 [popModalOnApiResult result]).

(** The [.catch] handler of [sendRequest]. *)
Definition onRejected (reason : option string) : Op unit :=
  perform (ConsoleLog
             ("Should never happen. " ++
              match reason with
              | Some s => s
              | None => "undefined"
              end)%string).

Definition settle (currentSeq : Z) (s : Settlement) : Op unit :=
  match s with
  | Fulfilled result => onFulfilled currentSeq result
  | Rejected reason => onRejected reason
  end.

(** [abort]. *)
Definition abort : Op unit :=
  n <- getSeqRef ;;
  setSeqRef (n + 1).

(** [mutate]. *)
Definition mutate (arg : MutateArg) : Op unit :=
  rs <- getReducerState ;;
  let mutatedPayload' :=
    match arg with
    | Updater f => f (payload rs)
    | Literal v => v
    end in
  dispatch (mkAction None mutate_action None None mutatedPayload').

(** The instance as [useRef(0)] and [useReducer(stateReducer, null, init)]
    create it. *)
Definition created : Hook :=
  mkHook 0 init init [] [] [] [] [].

(** The body of the [useEffect]: the first activation, and its cleanup. *)
Definition activate : Op unit :=
  if negb (manual config) then sendRequest None else ret tt.

Definition teardown : Op unit := abort.

Definition mounted : Hook := exec activate created.

(** ** The event loop around the instance *)

(** What can happen to a mounted instance, one event at a time; the cleanup
    of the effect is a call of [abort]. *)
Inductive Event : Type :=
| CallSendRequest (args : option ManualSendParam)
| CallAbort
| CallMutate (arg : MutateArg)
| PromiseSettles (currentSeq : Z) (s : Settlement)
| TimerFires
| Render.

Fixpoint removeFirst (n : Z) (l : list Z) : list Z :=
  match l with
  | [] => []
  | m :: l' => if m =? n then l' else m :: removeFirst n l'
  end.

Definition step (e : Event) (h : Hook) : Hook :=
  match e with
  | CallSendRequest args => exec (sendRequest args) h
  | CallAbort => exec abort h
  | CallMutate arg => exec (mutate arg) h
  | PromiseSettles currentSeq s =>
      if existsb (Z.eqb currentSeq) (inflight h)
      then exec (settle currentSeq s)
             (mkHook (seqRef h) (store h) (reducerState h) (macrotasks h)
                (invoked h) (console h) (transport h)
                (removeFirst currentSeq (inflight h)))
      else h
  | TimerFires =>
      match macrotasks h with
      | [] => h
      | task :: rest =>
          mkHook (seqRef h) (store h) (reducerState h) rest
            (invoked h ++ task) (console h) (transport h) (inflight h)
      end
  | Render =>
      mkHook (seqRef h) (store h) (store h) (macrotasks h) (invoked h)
        (console h) (transport h) (inflight h)
  end.

Fixpoint run (es : list Event) (h : Hook) : Hook :=
  match es with
  | [] => h
  | e :: es' => run es' (step e h)
  end.

(** Events that neither start an attempt nor abort one. *)
Definition keepsAttempt (e : Event) : bool :=
  match e with
  | CallSendRequest _ | CallAbort => false
  | _ => true
  end.

End Dispatcher.

(** ** Sample inputs *)

Definition plainConfig : UseApiRequestParam :=
  mkConfig (Some "/stat?mine"%string) None None None false None.

Definition manualConfig : UseApiRequestParam :=
  mkConfig (Some "/announcement"%string) None None None true None.

(** A formatter that wraps the payload into a one-element array. *)
Definition wrappingConfig : UseApiRequestParam :=
  mkConfig (Some "/stat?mine"%string) None None None false
    (Some (fun p => Arr [p])).

Definition statData : ApiRequestData :=
  mkData 0 "ok"%string (Obj [("handlingCount"%string, Num 2);
                             ("doneCount"%string, Num 7)]).

Definition okResult : ApiRequestResult :=
  mkResult ApiRequestStateEnum.success (Some statData) None.

Definition failedResult : ApiRequestResult :=
  mkResult ApiRequestStateEnum.error None (Some (mkError "timeout"%string)).

Definition failedState : UseApiInternalState :=
  mkState false None None Null (Some (mkError "timeout"%string)).

Definition increment : any -> any :=
  fun p => match p with Num n => Num (n + 1) | other => other end.

(** ** What an effect list amounts to *)

Definition called (es : list Effect) : list Invocation :=
  flat_map (fun e => match e with Call i => [i] | _ => [] end) es.

Definition scheduled (es : list Effect) : list (list Invocation) :=
  flat_map (fun e => match e with SetTimeout0 t => [t] | _ => [] end) es.

Definition logged (es : list Effect) : list string :=
  flat_map (fun e => match e with ConsoleLog l => [l] | _ => [] end) es.

(** The action [onFulfilled] dispatches. *)
Definition settlementAction (currentSeq : Z) (result : ApiRequestResult)
    : UseApiReducerAction :=
  match result_state result with
  | ApiRequestStateEnum.error =>
      mkAction (Some currentSeq) error_action None (result_error result)
        Undefined
  | ApiRequestStateEnum.success =>
      mkAction (Some currentSeq) done (result_data result) None Undefined
  end.

(** Events other than a call of [sendRequest]. *)
Definition notSendRequest (e : Event) : bool :=
  match e with
  | CallSendRequest _ => false
  | _ => true
  end.

(** The attempts in flight never carry a number above the counter. *)
Definition inflightBounded (h : Hook) : Prop :=
  Forall (fun n => n <= seqRef h) (inflight h).

(** ** Counting over traces *)

Definition isOnLoad (i : Invocation) : bool :=
  match i with onLoad => true | _ => false end.

Definition isOnUnsuccessful (i : Invocation) : bool :=
  match i with onUnsuccessful => true | _ => false end.

(** [onFail] or [onError]. *)
Definition isFailure (i : Invocation) : bool :=
  match i with onFail _ | onError _ => true | _ => false end.

(** [onSuccess], [onFail] or [onError]: the callback that reports how an
    attempt ended. *)
Definition isOutcome (i : Invocation) : bool :=
  match i with onSuccess _ | onFail _ | onError _ => true | _ => false end.

Definition countIf (p : Invocation -> bool) (l : list Invocation) : nat :=
  List.length (filter p l).

Definition isSendRequest (e : Event) : bool :=
  match e with CallSendRequest _ => true | _ => false end.

(** A call of [sendRequest] or of [abort]. *)
Definition advancesCounter (e : Event) : bool :=
  match e with CallSendRequest _ | CallAbort => true | _ => false end.

Definition countEvents (p : Event -> bool) (es : list Event) : nat :=
  List.length (filter p es).

(** The bodies the hook ever hands to [setTimeout]. *)
Definition timerTaskShape (task : list Invocation) : bool :=
  match task with
  | [onSuccess _] => true
  | [onFail _; onUnsuccessful] => true
  | [onError _; onUnsuccessful] => true
  | [popModalOnApiResult _] => true
  | _ => false
  end.

(** The callbacks the reducer schedules for a fulfilled result that is
    current. *)
Definition outcomeCallbacks (result : ApiRequestResult) : list Invocation :=
  match result_state result with
  | ApiRequestStateEnum.error =>
      [onError match result_error result with
               | Some e => e
               | None => defaultError
               end;
       onUnsuccessful]
  | ApiRequestStateEnum.success =>
      match result_data result with
      | Some d =>
          if data_code d =? 0 then [onSuccess d] else [onFail d; onUnsuccessful]
      | None => []
      end
  end.

(** What holds of every instance the event loop can reach. *)
Record Sound (h : Hook) : Prop := mkSound {
  sound_counter : 0 <= seqRef h;
  sound_fresh : NoDup (inflight h);
  sound_range : Forall (fun n => 1 <= n <= seqRef h) (inflight h);
  sound_tasks : Forall (fun t => timerTaskShape t = true) (macrotasks h);
  sound_unsuccessful :
    countIf isOnUnsuccessful (invoked h) = countIf isFailure (invoked h);
  sound_onLoad :
    (countIf isOnLoad (invoked h) <= List.length (transport h))%nat;
  sound_outcomes :
    (countIf isOutcome (invoked h ++ List.concat (macrotasks h))
     + List.length (inflight h) <= List.length (transport h))%nat;
  sound_exclusive :
    error (store h) <> None ->
    code (store h) = None /\ message (store h) = None;
}.



(** ** Caller-supplied functions that may throw *)

(** How a call ends. *)
Inductive Completion (A : Type) : Type :=
| Returned (a : A)
| Thrown (exception : any).

Arguments Returned {A} a.
Arguments Thrown {A} exception.

(** An operation that may end by an exception; what it did to the instance
    before the exception stays done. *)
Definition OpT (A : Type) : Type := Hook -> Completion A * Hook.

Definition liftT {A : Type} (m : Op A) : OpT A :=
  fun h => let (a, h') := m h in (Returned a, h').

Definition bindT {A B : Type} (m : OpT A) (k : A -> OpT B) : OpT B :=
  fun h =>
    match m h with
    | (Returned a, h') => k a h'
    | (Thrown e, h') => (Thrown e, h')
    end.

(** The call of a caller-supplied function. *)
Definition callT {A B : Type} (f : A -> Completion B) (a : A) : OpT B :=
  fun h => (f a, h).

Inductive MutateArgT : Type :=
| UpdaterT (f : any -> Completion any)
| LiteralT (v : any).

(** [mutate], with an updater that may throw: the call of the updater comes
    before the dispatch, and the hook has no handler around it. *)
Definition mutateT (config : UseApiRequestParam) (arg : MutateArgT)
    : OpT unit :=
  bindT (liftT getReducerState) (fun rs =>
  bindT match arg with
        | UpdaterT f => callT f (payload rs)
        | LiteralT v => liftT (ret v)
        end (fun mutatedPayload' =>
  liftT (dispatch config
           (mkAction None mutate_action None None mutatedPayload')))).

Definition throwingUpdater : any -> Completion any :=
  fun p =>
    match p with
    | Null => Thrown (Str "payload is null"%string)
    | other => Returned other
    end.

(** All attempts in flight were superseded. *)
Definition allSuperseded (h : Hook) : Prop :=
  Forall (fun n => n < seqRef h) (inflight h).

Definition failData : ApiRequestData :=
  mkData 5 "no such order"%string (Str "details"%string).

Definition emptySuccess : ApiRequestResult :=
  mkResult ApiRequestStateEnum.success None None.

(** ** Auxiliary facts *)

Lemma performAll_spec (es : list Effect) (h : Hook) :
  snd (performAll es h) =
  mkHook (seqRef h) (store h) (reducerState h)
    (macrotasks h ++ scheduled es) (invoked h ++ called es)
    (console h ++ logged es) (transport h) (inflight h).
Proof.
  revert h; induction es as [|e es IH]; intro h.
  - destruct h; cbn; now rewrite !app_nil_r.
  - cbn [performAll]. unfold bind.
    destruct (perform e h) as [u h1] eqn:E. rewrite IH.
    destruct e; cbn in E; inversion E; subst; cbn;
      now rewrite <- ?app_assoc.
Qed.

Lemma dispatch_spec (config : UseApiRequestParam)
    (action : UseApiReducerAction) (h : Hook) :
  exec (dispatch config action) h =
  let r := stateReducer config (seqRef h) (store h) action in
  mkHook (seqRef h) (fst r) (reducerState h)
    (macrotasks h ++ scheduled (snd r)) (invoked h ++ called (snd r))
    (console h ++ logged (snd r)) (transport h) (inflight h).
Proof.
  unfold exec, dispatch.
  destruct (stateReducer config (seqRef h) (store h) action) as [s es].
  now rewrite performAll_spec.
Qed.

Lemma bind_exec {A B : Type} (m : Op A) (k : A -> Op B) (h : Hook) :
  exec (bind m k) h = exec (k (fst (m h))) (exec m h).
Proof. unfold exec, bind. now destruct (m h). Qed.

Lemma isStale_current (n : Z) (action : UseApiReducerAction) :
  seq action = Some n -> isStale n action = false.
Proof. intro E. unfold isStale. rewrite E, Z.eqb_refl. reflexivity. Qed.

Lemma isStale_other (current n : Z) (action : UseApiReducerAction) :
  seq action = Some n -> n <> current -> isStale current action = true.
Proof.
  intros E D. unfold isStale. rewrite E.
  destruct (Z.eqb_spec current n); [congruence | reflexivity].
Qed.

Lemma stateReducer_stale (config : UseApiRequestParam) (current n : Z)
    (state : UseApiInternalState) (action : UseApiReducerAction) :
  seq action = Some n -> n <> current ->
  stateReducer config current state action = (state, []).
Proof.
  intros E D. unfold stateReducer.
  now rewrite (isStale_other current n action E D).
Qed.

Lemma sendRequest_spec (config : UseApiRequestParam)
    (args : option ManualSendParam) (h : Hook) :
  exec (sendRequest config args) h =
  mkHook (seqRef h + 1)
    (mkState true (code (store h)) (message (store h)) (payload (store h))
       (error (store h)))
    (reducerState h) (macrotasks h) (invoked h ++ [onLoad]) (console h)
    (transport h ++ [actualArgs config args]) (inflight h ++ [seqRef h + 1]).
Proof.
  unfold sendRequest. rewrite !bind_exec. cbn [getSeqRef fst exec snd setSeqRef].
  unfold sendApiRequest. cbn [snd].
  change (snd (dispatch config ?a ?x)) with (exec (dispatch config a) x).
  rewrite dispatch_spec. cbn [seqRef store].
  unfold stateReducer. rewrite isStale_current by reflexivity.
  cbn. now rewrite !app_nil_r.
Qed.

Lemma abort_spec (h : Hook) :
  exec abort h =
  mkHook (seqRef h + 1) (store h) (reducerState h) (macrotasks h) (invoked h)
    (console h) (transport h) (inflight h).
Proof. reflexivity. Qed.

Lemma mutate_spec (config : UseApiRequestParam) (arg : MutateArg) (h : Hook) :
  exec (mutate config arg) h =
  mkHook (seqRef h)
    (mkState (loading (store h)) (code (store h)) (message (store h))
       (match arg with
        | Updater f => f (payload (reducerState h))
        | Literal v => v
        end)
       (error (store h)))
    (reducerState h) (macrotasks h) (invoked h) (console h) (transport h)
    (inflight h).
Proof.
  unfold mutate. rewrite bind_exec. cbn [getReducerState fst exec snd].
  change (snd (dispatch config ?a ?x)) with (exec (dispatch config a) x).
  rewrite dispatch_spec. cbn. now rewrite !app_nil_r.
Qed.

Lemma onFulfilled_spec (config : UseApiRequestParam) (currentSeq : Z)
    (result : ApiRequestResult) (h : Hook) :
  exec (onFulfilled config currentSeq result) h =
  let r := stateReducer config (seqRef h) (store h)
             (settlementAction currentSeq result) in
  mkHook (seqRef h) (fst r) (reducerState h)
    (macrotasks h ++ scheduled (snd r) ++ [[popModalOnApiResult result]])
    (invoked h ++ called (snd r)) (console h ++ logged (snd r))
    (transport h) (inflight h).
Proof.
  unfold onFulfilled. rewrite bind_exec.
  replace (match result_state result with
           | ApiRequestStateEnum.success =>
               dispatch config
                 (mkAction (Some currentSeq) done (result_data result) None
                    Undefined)
           | ApiRequestStateEnum.error =>
               dispatch config
                 (mkAction (Some currentSeq) error_action None
                    (result_error result) Undefined)
           end)
    with (dispatch config (settlementAction currentSeq result))
    by (unfold settlementAction; now destruct (result_state result)).
  rewrite dispatch_spec. cbn. now rewrite <- app_assoc.
Qed.

Lemma onRejected_spec (reason : option string) (h : Hook) :
  exec (onRejected reason) h =
  mkHook (seqRef h) (store h) (reducerState h) (macrotasks h) (invoked h)
    (console h ++
     [("Should never happen. " ++
       match reason with Some s => s | None => "undefined" end)%string])
    (transport h) (inflight h).
Proof. reflexivity. Qed.

Lemma settlementAction_seq (currentSeq : Z) (result : ApiRequestResult) :
  seq (settlementAction currentSeq result) = Some currentSeq.
Proof. unfold settlementAction. now destruct (result_state result). Qed.

(** A settlement whose attempt is no longer the latest leaves the held state
    alone. *)
Lemma settle_stale_store (config : UseApiRequestParam) (n : Z)
    (s : Settlement) (h : Hook) :
  n <> seqRef h -> store (exec (settle config n s) h) = store h.
Proof.
  intro D. destruct s as [result|reason]; cbn [settle].
  - rewrite onFulfilled_spec. cbn [store].
    now rewrite (stateReducer_stale config (seqRef h) n _ _
                   (settlementAction_seq n result) D).
  - now rewrite onRejected_spec.
Qed.

Lemma settle_seqRef (config : UseApiRequestParam) (n : Z) (s : Settlement)
    (h : Hook) :
  seqRef (exec (settle config n s) h) = seqRef h.
Proof.
  destruct s; cbn [settle]; [now rewrite onFulfilled_spec | reflexivity].
Qed.

Lemma settle_transport (config : UseApiRequestParam) (n : Z) (s : Settlement)
    (h : Hook) :
  transport (exec (settle config n s) h) = transport h
  /\ inflight (exec (settle config n s) h) = inflight h.
Proof.
  destruct s; cbn [settle]; [now rewrite onFulfilled_spec | now split].
Qed.

(** The counter never goes back. *)
Lemma step_seqRef_mono (config : UseApiRequestParam) (e : Event) (h : Hook) :
  seqRef h <= seqRef (step config e h).
Proof.
  destruct e; cbn [step].
  - rewrite sendRequest_spec. cbn. lia.
  - rewrite abort_spec. cbn. lia.
  - rewrite mutate_spec. cbn. lia.
  - destruct (existsb _ _); [rewrite settle_seqRef; cbn|]; lia.
  - destruct (macrotasks h); cbn; lia.
  - cbn. lia.
Qed.

Lemma run_seqRef_mono (config : UseApiRequestParam) (es : list Event)
    (h : Hook) :
  seqRef h <= seqRef (run config es h).
Proof.
  revert h; induction es as [|e es IH]; intro h; cbn [run]; [lia|].
  specialize (IH (step config e h)).
  pose proof (step_seqRef_mono config e h). lia.
Qed.

(** Without a new trigger or an abort the counter stays where it is. *)
Lemma run_seqRef_kept (config : UseApiRequestParam) (es : list Event)
    (h : Hook) :
  forallb keepsAttempt es = true -> seqRef (run config es h) = seqRef h.
Proof.
  revert h; induction es as [|e es IH]; intros h K; cbn [run]; [reflexivity|].
  cbn [forallb] in K. apply andb_prop in K as [Ke K].
  rewrite (IH _ K).
  destruct e; cbn in Ke; try discriminate; cbn [step].
  - now rewrite mutate_spec.
  - destruct (existsb _ _); [now rewrite settle_seqRef | reflexivity].
  - now destruct (macrotasks h).
  - reflexivity.
Qed.

Lemma removeFirst_incl (n : Z) (l : list Z) (m : Z) :
  In m (removeFirst n l) -> In m l.
Proof.
  induction l as [|a l IH]; cbn; [easy|].
  destruct (a =? n); cbn; intuition.
Qed.

Lemma step_inflightBounded (config : UseApiRequestParam) (e : Event)
    (h : Hook) :
  inflightBounded h -> inflightBounded (step config e h).
Proof.
  unfold inflightBounded. intro B. destruct e; cbn [step].
  - rewrite sendRequest_spec. cbn [seqRef inflight].
    apply Forall_app; split.
    + eapply Forall_impl; [|exact B]. cbn; intros; lia.
    + constructor; [lia | constructor].
  - rewrite abort_spec. cbn [seqRef inflight].
    eapply Forall_impl; [|exact B]. cbn; intros; lia.
  - now rewrite mutate_spec.
  - destruct (existsb _ _); [|exact B].
    rewrite settle_seqRef.
    destruct (settle_transport config currentSeq s
                (mkHook (seqRef h) (store h) (reducerState h) (macrotasks h)
                   (invoked h) (console h) (transport h)
                   (removeFirst currentSeq (inflight h)))) as [_ ->].
    cbn [seqRef inflight]. rewrite Forall_forall in *.
    intros m Hm. apply B. eapply removeFirst_incl; eassumption.
  - now destruct (macrotasks h).
  - exact B.
Qed.

Lemma run_inflightBounded (config : UseApiRequestParam) (es : list Event)
    (h : Hook) :
  inflightBounded h -> inflightBounded (run config es h).
Proof.
  revert h; induction es as [|e es IH]; intros h B; cbn [run]; [exact B|].
  apply IH. now apply step_inflightBounded.
Qed.

Lemma mounted_inflightBounded (config : UseApiRequestParam) :
  inflightBounded (mounted config).
Proof.
  unfold mounted, activate, inflightBounded.
  destruct (manual config); cbn [negb].
  - cbn. constructor.
  - rewrite sendRequest_spec. cbn. constructor; [lia | constructor].
Qed.

(** Letting the event loop run every pending timer, oldest first. *)
Lemma timers_drain (config : UseApiRequestParam) (h : Hook) :
  run config (repeat TimerFires (List.length (macrotasks h))) h =
  mkHook (seqRef h) (store h) (reducerState h) []
    (invoked h ++ List.concat (macrotasks h)) (console h) (transport h)
    (inflight h).
Proof.
  destruct h as [sq st rs q inv con tr fl]. cbn [macrotasks].
  revert inv; induction q as [|t q IH]; intro inv; cbn in *.
  - now rewrite app_nil_r.
  - rewrite IH. now rewrite <- app_assoc.
Qed.

(** ** Properties of the specification *)

(** C1 (stale-response suppression).  An action that carries a sequence
    number other than the counter's present value makes the reducer return
    the very state it was given, with no effect.  Consequently, when trigger
    A starts before trigger B (whatever happens in between) and A's
    settlement comes after B's response (again whatever happens in
    between), A's settlement does not change the held state; and when B is
    still the latest attempt as its response arrives, the held state right
    after that response is B's outcome. *)
Theorem stale_response_suppression
    (config : UseApiRequestParam) (current n : Z)
    (state : UseApiInternalState) (action : UseApiReducerAction)
    (h : Hook) (argsA argsB : option ManualSendParam)
    (evs1 evs2 evs3 : list Event) (sA : Settlement) (rB : ApiRequestResult) :
  (seq action = Some n -> n <> current ->
   stateReducer config current state action = (state, []))
  /\ let hA := exec (sendRequest config argsA) h in
     let hB := exec (sendRequest config argsB) (run config evs1 hA) in
     let before := run config evs2 hB in
     let afterB := exec (onFulfilled config (seqRef hB) rB) before in
     let late := run config evs3 afterB in
     (forallb keepsAttempt evs2 = true ->
      store afterB =
        match result_state rB with
        | ApiRequestStateEnum.error =>
            mkState false None None Null
              (Some match result_error rB with
                    | Some e => e
                    | None => defaultError
                    end)
        | ApiRequestStateEnum.success =>
            match result_data rB with
            | Some d =>
                mkState false (Some (data_code d)) (Some (data_message d))
                  (persistedFormatResult config (data_payload d)) None
            | None => store before
            end
        end)
     /\ store (exec (settle config (seqRef hA) sA) late) = store late
     /\ store (step config (PromiseSettles (seqRef hA) sA) late) = store late.
Proof.
  split.
  - intros Hseq Hne. now apply stateReducer_stale with (n := n).
  - cbv zeta.
    set (hA := exec (sendRequest config argsA) h).
    set (hB := exec (sendRequest config argsB) (run config evs1 hA)).
    set (before := run config evs2 hB).
    set (afterB := exec (onFulfilled config (seqRef hB) rB) before).
    set (late := run config evs3 afterB).
    assert (E1 : seqRef hB = seqRef (run config evs1 hA) + 1)
      by (unfold hB; now rewrite sendRequest_spec).
    assert (E3 : seqRef afterB = seqRef before)
      by (unfold afterB; now rewrite onFulfilled_spec).
    pose proof (run_seqRef_mono config evs1 hA) as M1.
    pose proof (run_seqRef_mono config evs2 hB) as M2. fold before in M2.
    pose proof (run_seqRef_mono config evs3 afterB) as M3. fold late in M3.
    split; [|split].
    + intro Hkeep.
      assert (E2 : seqRef before = seqRef hB)
        by (apply run_seqRef_kept; exact Hkeep).
      unfold afterB. rewrite onFulfilled_spec. cbn [store].
      rewrite E2. unfold stateReducer.
      rewrite (isStale_current _ _ (settlementAction_seq _ rB)).
      unfold settlementAction.
      destruct (result_state rB); cbn [type data action_error].
      * destruct (result_data rB) as [d|]; [|reflexivity].
        destruct (data_code d =? 0); reflexivity.
      * reflexivity.
    + apply settle_stale_store. lia.
    + cbn [step]. destruct (existsb _ _); [|reflexivity].
      rewrite settle_stale_store; [reflexivity | cbn [seqRef]; lia].
Qed.

Lemma stale_response_suppression_witness :
  stateReducer plainConfig 2 failedState
    (mkAction (Some 1) done (Some statData) None Undefined)
  = (failedState, [])
  /\ let hA := exec (sendRequest plainConfig None) (created plainConfig) in
     let hB := exec (sendRequest plainConfig None)
                 (run plainConfig [Render] hA) in
     let before :=
       run plainConfig [Render; CallMutate (Literal (Num 5))] hB in
     let afterB := exec (onFulfilled plainConfig (seqRef hB) okResult) before in
     let late := run plainConfig [TimerFires] afterB in
     store afterB =
       mkState false (Some 0) (Some "ok"%string) (data_payload statData) None
     /\ store (exec (settle plainConfig (seqRef hA) (Fulfilled failedResult))
                 late)
        = store late.
Proof.
  pose proof (stale_response_suppression plainConfig 2 1 failedState
                (mkAction (Some 1) done (Some statData) None Undefined)
                (created plainConfig) None None [Render]
                [Render; CallMutate (Literal (Num 5))] [TimerFires]
                (Fulfilled failedResult) okResult) as [R [B [A _]]].
  split; [apply R; [reflexivity | lia]|].
  split; [apply B; reflexivity | exact A].
Defined.

(** C2 (success with the sentinel code).  A done action that carries data
    with code 0, with the current sequence number, yields loading = false,
    error = null and payload = formatResult(raw payload) (the identity when
    no formatter was given), and its only effect is one timer task that
    runs onSuccess once on the data; dispatched on an instance, no callback
    runs during the dispatch, and once the pending timers have fired the
    trace has gained exactly that onSuccess call (no onFail). *)
Theorem success_action_sets_state_and_schedules_onSuccess
    (config : UseApiRequestParam) (current : Z)
    (state : UseApiInternalState) (action : UseApiReducerAction)
    (d : ApiRequestData) (h : Hook) :
  type action = done -> data action = Some d -> data_code d = 0 ->
  seq action = Some current -> seqRef h = current ->
  stateReducer config current state action =
    (mkState false (Some (data_code d)) (Some (data_message d))
       (persistedFormatResult config (data_payload d)) None,
     [SetTimeout0 [onSuccess d]])
  /\ persistedFormatResult config (data_payload d) =
       match formatResult config with
       | Some f => f (data_payload d)
       | None => data_payload d
       end
  /\ let h' := exec (dispatch config action) h in
     invoked h' = invoked h
     /\ macrotasks h' = macrotasks h ++ [[onSuccess d]]
     /\ invoked (run config
                   (repeat TimerFires (List.length (macrotasks h'))) h') =
        invoked h ++ List.concat (macrotasks h) ++ [onSuccess d].
Proof.
  intros Ht Hd Hc Hs Hcur.
  assert (R : stateReducer config current state action =
              (mkState false (Some (data_code d)) (Some (data_message d))
                 (persistedFormatResult config (data_payload d)) None,
               [SetTimeout0 [onSuccess d]])).
  { unfold stateReducer. rewrite (isStale_current _ _ Hs), Ht, Hd, Hc.
    reflexivity. }
  split; [exact R|]. split.
  - unfold persistedFormatResult, useOptionalPersistFn.
    now destruct (formatResult config).
  - cbv zeta. rewrite timers_drain. rewrite dispatch_spec. cbv zeta.
    subst current. unfold stateReducer.
    rewrite (isStale_current _ _ Hs), Ht, Hd, Hc. cbn.
    rewrite app_nil_r, concat_app. cbn. now rewrite ?app_nil_r.
Qed.

Lemma success_action_witness :
  stateReducer wrappingConfig 3 failedState
    (mkAction (Some 3) done (Some statData) None Undefined) =
    (mkState false (Some 0) (Some "ok"%string) (Arr [data_payload statData])
       None,
     [SetTimeout0 [onSuccess statData]])
  /\ persistedFormatResult wrappingConfig (data_payload statData) =
       Arr [data_payload statData]
  /\ let h := exec (sendRequest wrappingConfig None) (created wrappingConfig) in
     let h' := exec (dispatch wrappingConfig
                       (mkAction (Some 1) done (Some statData) None Undefined))
                 h in
     invoked h' = invoked h
     /\ macrotasks h' = macrotasks h ++ [[onSuccess statData]]
     /\ invoked (run wrappingConfig
                   (repeat TimerFires (List.length (macrotasks h'))) h') =
        invoked h ++ List.concat (macrotasks h) ++ [onSuccess statData].
Proof.
  split; [|split].
  - apply (success_action_sets_state_and_schedules_onSuccess wrappingConfig 3
             failedState
             (mkAction (Some 3) done (Some statData) None Undefined)
             statData
             (mkHook 3 failedState failedState [] [] [] [] []));
      reflexivity.
  - reflexivity.
  - apply (success_action_sets_state_and_schedules_onSuccess wrappingConfig 1
             failedState
             (mkAction (Some 1) done (Some statData) None Undefined)
             statData
             (exec (sendRequest wrappingConfig None) (created wrappingConfig)));
      reflexivity.
Defined.

(** C3 (transport error).  An error action with the current sequence number
    yields loading = false, code = message = null, payload = null and error
    = the supplied Error, or the default network-error Error when none is
    supplied; its only effect is one timer task that runs onError on that
    error and then onUnsuccessful, each once; dispatched on an instance, no
    callback runs during the dispatch, and once the pending timers have
    fired the trace has gained exactly those two calls, in that order. *)
Theorem error_action_clears_and_schedules_onError
    (config : UseApiRequestParam) (current : Z)
    (state : UseApiInternalState) (action : UseApiReducerAction) (h : Hook) :
  type action = error_action ->
  seq action = Some current -> seqRef h = current ->
  let e := match action_error action with
           | Some supplied => supplied
           | None => mkError "网络请求错误"
           end in
  stateReducer config current state action =
    (mkState false None None Null (Some e),
     [SetTimeout0 [onError e; onUnsuccessful]])
  /\ let h' := exec (dispatch config action) h in
     invoked h' = invoked h
     /\ macrotasks h' = macrotasks h ++ [[onError e; onUnsuccessful]]
     /\ invoked (run config
                   (repeat TimerFires (List.length (macrotasks h'))) h') =
        invoked h ++ List.concat (macrotasks h) ++ [onError e; onUnsuccessful].
Proof.
  intros Ht Hs Hcur. cbv zeta. split.
  - unfold stateReducer. rewrite (isStale_current _ _ Hs), Ht. reflexivity.
  - rewrite timers_drain. rewrite dispatch_spec. cbv zeta.
    subst current. unfold stateReducer.
    rewrite (isStale_current _ _ Hs), Ht. cbn.
    rewrite app_nil_r, concat_app. cbn. now rewrite ?app_nil_r.
Qed.

Lemma error_action_witness :
  stateReducer plainConfig 1
    (mkState true (Some 0) (Some "ok"%string) (Num 5) None)
    (mkAction (Some 1) error_action None None Undefined) =
    (mkState false None None Null (Some (mkError "网络请求错误")),
     [SetTimeout0 [onError (mkError "网络请求错误"); onUnsuccessful]])
  /\ stateReducer plainConfig 1
       (mkState true (Some 0) (Some "ok"%string) (Num 5) None)
       (mkAction (Some 1) error_action None
          (Some (mkError "timeout"%string)) Undefined) =
     (mkState false None None Null (Some (mkError "timeout"%string)),
      [SetTimeout0 [onError (mkError "timeout"%string); onUnsuccessful]]).
Proof.
  split.
  - apply (error_action_clears_and_schedules_onError plainConfig 1
             (mkState true (Some 0) (Some "ok"%string) (Num 5) None)
             (mkAction (Some 1) error_action None None Undefined)
             (mounted plainConfig)); reflexivity.
  - apply (error_action_clears_and_schedules_onError plainConfig 1
             (mkState true (Some 0) (Some "ok"%string) (Num 5) None)
             (mkAction (Some 1) error_action None
                (Some (mkError "timeout"%string)) Undefined)
             (mounted plainConfig)); reflexivity.
Defined.

(** C4 as stated (every current start action and every current success
    action leaves error = null whatever the prior state) fails: after a
    failed attempt, the start action of the next attempt keeps the error. *)
Lemma start_clears_error_counterexample :
  ~ (forall (config : UseApiRequestParam) (current : Z)
            (state : UseApiInternalState) (action : UseApiReducerAction),
        seq action = Some current ->
        type action = load \/ (type action = done /\ data action <> None) ->
        error (fst (stateReducer config current state action)) = None).
Proof.
  intro claim.
  specialize (claim plainConfig 2 failedState
                (mkAction (Some 2) load None None Undefined)
                eq_refl (or_introl eq_refl)).
  discriminate claim.
Qed.

(** C4, amended (error-field invariant).  A current success action that
    carries data leaves error = null whatever the prior state; a current
    start action sets loading = true and leaves error (like code, message
    and payload) as it was; and whatever the action, the reducer yields an
    error that is either the prior one, or null, or comes from an error
    action. *)
Theorem error_cleared_by_success_kept_by_start
    (config : UseApiRequestParam) (current : Z)
    (state : UseApiInternalState) (action : UseApiReducerAction) :
  seq action = Some current ->
  let state' := fst (stateReducer config current state action) in
  (type action = done -> data action <> None -> error state' = None)
  /\ (type action = load ->
      state' = mkState true (code state) (message state) (payload state)
                 (error state))
  /\ (error state' = error state \/ error state' = None
      \/ type action = error_action).
Proof.
  intros Hs. cbv zeta. unfold stateReducer.
  rewrite (isStale_current _ _ Hs).
  split; [|split].
  - intros Ht Hd. rewrite Ht.
    destruct (data action) as [d|]; [reflexivity | congruence].
  - intros Ht. rewrite Ht. reflexivity.
  - destruct (type action); cbn; auto.
    destruct (data action); cbn; auto.
Qed.

Lemma error_cleared_by_success_kept_by_start_witness :
  error (fst (stateReducer plainConfig 2 failedState
                (mkAction (Some 2) done (Some statData) None Undefined)))
  = None
  /\ fst (stateReducer plainConfig 2 failedState
            (mkAction (Some 2) load None None Undefined))
     = mkState true None None Null (Some (mkError "timeout"%string)).
Proof.
  split.
  - apply (error_cleared_by_success_kept_by_start plainConfig 2 failedState
             (mkAction (Some 2) done (Some statData) None Undefined)
             eq_refl); [reflexivity | discriminate].
  - apply (error_cleared_by_success_kept_by_start plainConfig 2 failedState
             (mkAction (Some 2) load None None Undefined) eq_refl).
    reflexivity.
Defined.

(** C5 (frame property of mutate).  Whatever the instance and the argument,
    [mutate] replaces the payload of the held state by the literal, or by
    the updater applied to the payload of the last rendered state, and
    nothing else changes: loading, code, message and error, the counter,
    the transport calls made, the attempts in flight, the pending timers,
    the callbacks run and the console are as they were.  The reducer does
    the same on a mutate action at every counter value, with no effect. *)
Theorem mutate_frame
    (config : UseApiRequestParam) (h : Hook) (arg : MutateArg)
    (current : Z) (state : UseApiInternalState) (v : any) :
  let h' := exec (mutate config arg) h in
  payload (store h') =
    match arg with
    | Updater f => f (payload (reducerState h))
    | Literal v' => v'
    end
  /\ loading (store h') = loading (store h)
  /\ code (store h') = code (store h)
  /\ message (store h') = message (store h)
  /\ error (store h') = error (store h)
  /\ seqRef h' = seqRef h
  /\ transport h' = transport h
  /\ inflight h' = inflight h
  /\ macrotasks h' = macrotasks h
  /\ invoked h' = invoked h
  /\ console h' = console h
  /\ stateReducer config current state
       (mkAction None mutate_action None None v) =
     (mkState (loading state) (code state) (message state) v (error state),
      []).
Proof.
  cbv zeta. rewrite mutate_spec. cbn. repeat split; reflexivity.
Qed.

(** The example of the specification: with payload 5 on screen,
    [mutate(p => p + 1)] yields payload 6. *)
Example mutate_increment :
  let h := mkHook 1 (mkState false (Some 0) (Some "ok"%string) (Num 5) None)
             (mkState false (Some 0) (Some "ok"%string) (Num 5) None)
             [] [] [] [] [] in
  store (exec (mutate plainConfig (Updater increment)) h) =
  mkState false (Some 0) (Some "ok"%string) (Num 6) None.
Proof. reflexivity. Qed.

(** C7 as the code has it.  The reducer runs onLoad itself while it handles
    a current start action: the call is its one effect and no timer task is
    created, unlike the done and error branches.  On an instance, the
    dispatch of a start action, and so [sendRequest], ends with onLoad
    already run and the timer queue as it was. *)
Theorem load_runs_onLoad_inside_reducer
    (config : UseApiRequestParam) (state : UseApiInternalState) (h : Hook)
    (args : option ManualSendParam) :
  stateReducer config (seqRef h) state
    (mkAction (Some (seqRef h)) load None None Undefined) =
    (mkState true (code state) (message state) (payload state) (error state),
     [Call onLoad])
  /\ (let h' := exec (dispatch config
                        (mkAction (Some (seqRef h)) load None None Undefined))
                  h in
      loading (store h') = true
      /\ invoked h' = invoked h ++ [onLoad]
      /\ macrotasks h' = macrotasks h)
  /\ (let sent := exec (sendRequest config args) h in
      loading (store sent) = true
      /\ invoked sent = invoked h ++ [onLoad]
      /\ macrotasks sent = macrotasks h).
Proof.
  assert (R : stateReducer config (seqRef h) state
                (mkAction (Some (seqRef h)) load None None Undefined) =
              (mkState true (code state) (message state) (payload state)
                 (error state), [Call onLoad])).
  { unfold stateReducer. rewrite isStale_current by reflexivity.
    reflexivity. }
  split; [exact R|]. split.
  - cbv zeta. rewrite dispatch_spec. cbv zeta. unfold stateReducer.
    rewrite isStale_current by reflexivity. cbn.
    now rewrite app_nil_r.
  - cbv zeta. rewrite sendRequest_spec. cbn. repeat split; reflexivity.
Qed.

(** At the start of the first attempt of a fresh instance: onLoad has run
    when [sendRequest] returns, and no timer is pending. *)
Example first_load_runs_onLoad_at_once :
  let sent := exec (sendRequest plainConfig None) (created plainConfig) in
  invoked sent = [onLoad] /\ macrotasks sent = []
  /\ snd (stateReducer plainConfig 1 (init plainConfig)
            (mkAction (Some 1) load None None Undefined)) = [Call onLoad].
Proof. repeat split; reflexivity. Qed.

Lemma step_transport_kept (config : UseApiRequestParam) (e : Event)
    (h : Hook) :
  notSendRequest e = true -> transport (step config e h) = transport h.
Proof.
  destruct e; cbn [notSendRequest step]; intro K; try discriminate.
  - reflexivity.
  - now rewrite mutate_spec.
  - destruct (existsb _ _); [|reflexivity].
    now destruct (settle_transport config currentSeq s
                    (mkHook (seqRef h) (store h) (reducerState h)
                       (macrotasks h) (invoked h) (console h) (transport h)
                       (removeFirst currentSeq (inflight h)))) as [-> _].
  - now destruct (macrotasks h).
  - reflexivity.
Qed.

Lemma run_transport_kept (config : UseApiRequestParam) (es : list Event)
    (h : Hook) :
  forallb notSendRequest es = true ->
  transport (run config es h) = transport h.
Proof.
  revert h; induction es as [|e es IH]; intros h K; cbn [run]; [reflexivity|].
  cbn [forallb] in K. apply andb_prop in K as [Ke K].
  rewrite (IH _ K). now apply step_transport_kept.
Qed.

(** C6 (abort invalidation).  [abort] adds one to the counter and changes
    nothing else: no transport call, no timer, no callback, and the held
    state is the same.  For an attempt in flight when [abort] is called, on
    any instance the event loop can reach from the mounted one, the
    attempt's settlement (fulfilled with any result, or rejected) leaves the
    held state, loading included, as it finds it, however many events come
    between the abort and the settlement. *)
Theorem abort_invalidates_attempts_in_flight
    (config : UseApiRequestParam) (evs0 evs : list Event) (n : Z)
    (s : Settlement) :
  let h := run config evs0 (mounted config) in
  In n (inflight h) ->
  let h' := exec abort h in
  h' = mkHook (seqRef h + 1) (store h) (reducerState h) (macrotasks h)
         (invoked h) (console h) (transport h) (inflight h)
  /\ let late := run config evs h' in
     store (exec (settle config n s) late) = store late
     /\ store (step config (PromiseSettles n s) late) = store late.
Proof.
  cbv zeta. intro Hin. split; [apply abort_spec|].
  set (h := run config evs0 (mounted config)) in *.
  assert (B : n <= seqRef h).
  { pose proof (run_inflightBounded config evs0 _
                  (mounted_inflightBounded config)) as B.
    fold h in B. unfold inflightBounded in B.
    rewrite Forall_forall in B. now apply B. }
  pose proof (run_seqRef_mono config evs (exec abort h)) as M.
  rewrite abort_spec in M. cbn [seqRef] in M. rewrite abort_spec.
  split.
  - apply settle_stale_store. lia.
  - cbn [step]. destruct (existsb _ _); [|reflexivity].
    rewrite settle_stale_store; [reflexivity | cbn [seqRef]; lia].
Qed.

Lemma abort_invalidates_attempts_in_flight_witness :
  let h := run plainConfig [] (mounted plainConfig) in
  let h' := exec abort h in
  h' = mkHook 2 (store h) (reducerState h) (macrotasks h) (invoked h)
         (console h) (transport h) (inflight h)
  /\ let late := run plainConfig [CallSendRequest None] h' in
     store (exec (settle plainConfig 1 (Fulfilled okResult)) late)
     = store late
     /\ store (step plainConfig (PromiseSettles 1 (Fulfilled okResult)) late)
        = store late.
Proof.
  apply (abort_invalidates_attempts_in_flight plainConfig []
           [CallSendRequest None] 1 (Fulfilled okResult)).
  simpl. left. reflexivity.
Defined.

(** C8 (manual mode).  With manual = true the initial state has loading =
    false, the first activation changes nothing, no transport call is made
    by any run of events without a call of [sendRequest], and a call of
    [sendRequest] yields loading = true with its one transport call.  With
    manual = false the initial state has loading = true and the first
    activation makes exactly one transport call, for the configured
    request. *)
Theorem manual_mode (config : UseApiRequestParam) :
  (manual config = true ->
     loading (init config) = false
     /\ mounted config = created config
     /\ transport (mounted config) = []
     /\ (forall evs, forallb notSendRequest evs = true ->
           transport (run config evs (mounted config)) = [])
     /\ (forall evs args,
           forallb notSendRequest evs = true ->
           let h := exec (sendRequest config args)
                      (run config evs (mounted config)) in
           loading (store h) = true
           /\ transport h = [actualArgs config args]))
  /\ (manual config = false ->
        loading (init config) = true
        /\ loading (store (mounted config)) = true
        /\ transport (mounted config) = [actualArgs config None]
        /\ inflight (mounted config) = [1]
        /\ seqRef (mounted config) = 1).
Proof.
  split; intro Hm.
  - assert (E : mounted config = created config).
    { unfold mounted, activate. now rewrite Hm. }
    split; [unfold init; now rewrite Hm|].
    split; [exact E|]. rewrite E.
    split; [reflexivity|]. split.
    + intros evs K. now rewrite run_transport_kept.
    + intros evs args K. cbv zeta. rewrite sendRequest_spec. cbn.
      split; [reflexivity|]. now rewrite run_transport_kept.
  - unfold mounted, activate, init. rewrite Hm. cbn [negb].
    rewrite sendRequest_spec. cbn. repeat split; reflexivity.
Qed.

Lemma manual_mode_witness :
  (loading (init manualConfig) = false
   /\ mounted manualConfig = created manualConfig
   /\ transport (mounted manualConfig) = []
   /\ (forall evs, forallb notSendRequest evs = true ->
         transport (run manualConfig evs (mounted manualConfig)) = [])
   /\ (forall evs args,
         forallb notSendRequest evs = true ->
         let h := exec (sendRequest manualConfig args)
                    (run manualConfig evs (mounted manualConfig)) in
         loading (store h) = true
         /\ transport h = [actualArgs manualConfig args]))
  /\ (loading (init plainConfig) = true
      /\ loading (store (mounted plainConfig)) = true
      /\ transport (mounted plainConfig) =
           [mkParam (Some "/stat?mine"%string) (Some "GET"%string) None None]
      /\ inflight (mounted plainConfig) = [1]
      /\ seqRef (mounted plainConfig) = 1).
Proof.
  split.
  - apply (proj1 (manual_mode manualConfig)). reflexivity.
  - apply (proj2 (manual_mode plainConfig)). reflexivity.
Defined.



(** An updater that throws on a null payload: on the mounted instance the
    exception leaves [mutate] and the instance is untouched; once a payload
    is on screen the same call ends normally. *)
Example throwing_updater_escapes_mutate :
  mutateT plainConfig (UpdaterT throwingUpdater) (mounted plainConfig) =
    (Thrown (Str "payload is null"%string), mounted plainConfig)
  /\ fst (mutateT plainConfig (UpdaterT throwingUpdater)
            (mkHook 1 (mkState false (Some 0) (Some "ok"%string) (Num 5) None)
               (mkState false (Some 0) (Some "ok"%string) (Num 5) None)
               [] [] [] [] [])) = Returned tt.
Proof. split; reflexivity. Qed.

(** C10 (mutate bypasses the sequence guard).  The action [mutate]
    dispatches has no sequence number, so the guard lets it through at
    every counter value and the reducer installs its payload.  With an
    attempt in flight, and also right after an [abort], [mutate] installs
    the new payload; when that attempt, still the latest, is then fulfilled,
    the payload becomes null for an error result and the formatted payload
    of the data for a success result (a success result without data leaves
    the mutated payload). *)
Theorem mutate_bypasses_guard_and_is_overwritten
    (config : UseApiRequestParam) (current : Z)
    (state : UseApiInternalState) (v : any)
    (h : Hook) (args : option ManualSendParam) (arg : MutateArg)
    (r : ApiRequestResult) :
  let mutated :=
    match arg with
    | Updater f => f (payload (reducerState h))
    | Literal v' => v'
    end in
  isStale current (mkAction None mutate_action None None v) = false
  /\ payload (fst (stateReducer config current state
                     (mkAction None mutate_action None None v))) = v
  /\ let sent := exec (sendRequest config args) h in
     payload (store (exec (mutate config arg) sent)) = mutated
     /\ payload (store (exec (mutate config arg) (exec abort sent))) = mutated
     /\ payload (store (exec (onFulfilled config (seqRef sent) r)
                          (exec (mutate config arg) sent))) =
        match result_state r with
        | ApiRequestStateEnum.error => Null
        | ApiRequestStateEnum.success =>
            match result_data r with
            | Some d => persistedFormatResult config (data_payload d)
            | None => mutated
            end
        end.
Proof.
  cbv zeta. split; [reflexivity|]. split; [reflexivity|].
  rewrite sendRequest_spec. split; [|split].
  - now rewrite mutate_spec.
  - now rewrite abort_spec, mutate_spec.
  - rewrite onFulfilled_spec, mutate_spec. cbn [store seqRef].
    unfold stateReducer.
    rewrite (isStale_current _ _ (settlementAction_seq _ r)).
    unfold settlementAction.
    destruct (result_state r); cbn [type data action_error].
    + destruct (result_data r) as [d|]; [|reflexivity].
      destruct (data_code d =? 0); reflexivity.
    + reflexivity.
Qed.

(** ** Further facts about the instance *)

Lemma countIf_app (p : Invocation -> bool) (l l' : list Invocation) :
  countIf p (l ++ l') = (countIf p l + countIf p l')%nat.
Proof. unfold countIf. now rewrite filter_app, length_app. Qed.

Lemma timerTaskShape_counts (t : list Invocation) :
  timerTaskShape t = true ->
  countIf isOnUnsuccessful t = countIf isFailure t
  /\ countIf isOnLoad t = 0%nat
  /\ (countIf isOutcome t <= 1)%nat.
Proof.
  destruct t as [|i [|j [|k t]]]; try destruct i; try destruct j;
    cbn; intro E; try discriminate E; repeat split; auto.
Qed.

Lemma outcomeCallbacks_shape (r : ApiRequestResult) :
  outcomeCallbacks r = []
  \/ (timerTaskShape (outcomeCallbacks r) = true
      /\ countIf isOutcome (outcomeCallbacks r) = 1%nat).
Proof.
  unfold outcomeCallbacks. destruct (result_state r).
  - destruct (result_data r) as [d|]; [|now left].
    right. destruct (data_code d =? 0); now split.
  - right. now split.
Qed.

(** What the reducer does with the action of a fulfilled promise. *)
Lemma settlement_effects (config : UseApiRequestParam) (current n : Z)
    (state : UseApiInternalState) (r : ApiRequestResult) :
  let es := snd (stateReducer config current state (settlementAction n r)) in
  called es = [] /\ logged es = []
  /\ scheduled es =
     if current =? n
     then match outcomeCallbacks r with [] => [] | t => [t] end
     else [].
Proof.
  cbv zeta. unfold stateReducer, isStale. rewrite settlementAction_seq.
  destruct (current =? n); cbn [negb]; [|now repeat split].
  unfold settlementAction, outcomeCallbacks.
  destruct (result_state r); cbn [type data action_error].
  - destruct (result_data r) as [d|]; [|now repeat split].
    destruct (data_code d =? 0); now repeat split.
  - now repeat split.
Qed.

Lemma settlement_schedule (config : UseApiRequestParam) (current n : Z)
    (state : UseApiInternalState) (r : ApiRequestResult) :
  let es := snd (stateReducer config current state (settlementAction n r)) in
  called es = []
  /\ Forall (fun t => timerTaskShape t = true) (scheduled es)
  /\ (countIf isOutcome (List.concat (scheduled es)) <= 1)%nat.
Proof.
  cbv zeta.
  destruct (settlement_effects config current n state r) as (Ec & _ & Es).
  rewrite Es. split; [exact Ec|].
  destruct (current =? n); [|split; [constructor | cbn; lia]].
  destruct (outcomeCallbacks_shape r) as [->|[Sh One]];
    [split; [constructor | cbn; lia]|].
  destruct (outcomeCallbacks r) as [|i l]; [split; [constructor | cbn; lia]|].
  split; [repeat constructor; exact Sh|].
  cbn [List.concat]. rewrite app_nil_r. lia.
Qed.

(** A state never shows an error together with a code or a message, and the
    reducer keeps it so. *)
Lemma stateReducer_exclusive (config : UseApiRequestParam) (current : Z)
    (state : UseApiInternalState) (action : UseApiReducerAction) :
  (error state <> None -> code state = None /\ message state = None) ->
  let state' := fst (stateReducer config current state action) in
  error state' <> None -> code state' = None /\ message state' = None.
Proof.
  intro P. cbv zeta. unfold stateReducer.
  destruct (isStale current action); [exact P|].
  destruct (type action); cbn; auto.
  destruct (data action); cbn; [congruence | exact P].
Qed.

Lemma removeFirst_NoDup (n : Z) (l : list Z) :
  NoDup l -> NoDup (removeFirst n l).
Proof.
  induction l as [|m l IH]; cbn; intro N; [constructor|].
  apply NoDup_cons_iff in N as [Hm N].
  destruct (m =? n); [exact N|].
  constructor; [|now apply IH].
  intro Hin. apply Hm. eapply removeFirst_incl; eassumption.
Qed.

Lemma removeFirst_length (n : Z) (l : list Z) :
  existsb (Z.eqb n) l = true ->
  S (List.length (removeFirst n l)) = List.length l.
Proof.
  induction l as [|m l IH]; cbn; [discriminate|].
  rewrite (Z.eqb_sym n m). destruct (m =? n); cbn; [reflexivity|].
  intro E. now rewrite IH.
Qed.

Lemma sendRequest_Sound (config : UseApiRequestParam)
    (args : option ManualSendParam) (h : Hook) :
  Sound h -> Sound (exec (sendRequest config args) h).
Proof.
  intros [Hc Hf Hr Ht Hu Hl Ho He]. rewrite sendRequest_spec.
  constructor; cbn [seqRef store inflight macrotasks invoked transport
                    error code message].
  - lia.
  - apply NoDup_app; [exact Hf | repeat constructor; intros [] |].
    intros a Ha [<-|[]]. rewrite Forall_forall in Hr.
    specialize (Hr _ Ha). lia.
  - apply Forall_app; split.
    + eapply Forall_impl; [|exact Hr]. cbn; intros; lia.
    + repeat constructor; lia.
  - exact Ht.
  - rewrite !countIf_app. cbn. lia.
  - rewrite countIf_app, length_app. cbn. lia.
  - rewrite <- app_assoc, !countIf_app, !length_app in *. cbn. lia.
  - exact He.
Qed.

Lemma step_Sound (config : UseApiRequestParam) (e : Event) (h : Hook) :
  Sound h -> Sound (step config e h).
Proof.
  intro S0. destruct e; cbn [step].
  - now apply sendRequest_Sound.
  - destruct S0 as [Hc Hf Hr Ht Hu Hl Ho He]. rewrite abort_spec.
    constructor; cbn [seqRef store inflight macrotasks invoked transport];
      auto; try lia.
    eapply Forall_impl; [|exact Hr]. cbn; intros; lia.
  - destruct S0 as [Hc Hf Hr Ht Hu Hl Ho He]. rewrite mutate_spec.
    constructor; cbn [seqRef store inflight macrotasks invoked transport
                      error code message]; auto.
  - destruct (existsb (Z.eqb currentSeq) (inflight h)) eqn:Ex; [|exact S0].
    destruct S0 as [Hc Hf Hr Ht Hu Hl Ho He].
    pose proof (removeFirst_length _ _ Ex) as Len.
    assert (Hr' : Forall (fun n => 1 <= n <= seqRef h)
                    (removeFirst currentSeq (inflight h))).
    { rewrite Forall_forall in *. intros m Hin. apply Hr.
      eapply removeFirst_incl; eassumption. }
    destruct s as [r|reason]; cbn [settle].
    + rewrite onFulfilled_spec. cbv zeta.
      cbn [seqRef store inflight macrotasks invoked transport].
      destruct (settlement_schedule config (seqRef h) currentSeq (store h) r)
        as (Ec & Sh & One).
      rewrite Ec, app_nil_r.
      constructor; cbn [seqRef store inflight macrotasks invoked transport];
        auto.
      * now apply removeFirst_NoDup.
      * apply Forall_app; split; [exact Ht|].
        apply Forall_app; split; [exact Sh | repeat constructor].
      * rewrite !concat_app, !countIf_app in *.
        cbn [List.concat app countIf filter isOutcome List.length]. lia.
      * now apply stateReducer_exclusive.
    + rewrite onRejected_spec.
      constructor; cbn [seqRef store inflight macrotasks invoked transport];
        auto; [now apply removeFirst_NoDup | lia].
  - destruct (macrotasks h) as [|task rest] eqn:Q; [exact S0|].
    destruct S0 as [Hc Hf Hr Ht Hu Hl Ho He]. rewrite Q in *.
    apply Forall_cons_iff in Ht as [Sh Ht].
    destruct (timerTaskShape_counts task Sh) as (Bal & NoLoad & _).
    constructor; cbn [seqRef store inflight macrotasks invoked transport];
      auto.
    + rewrite !countIf_app. lia.
    + rewrite countIf_app. lia.
    + cbn [List.concat] in Ho. now rewrite <- app_assoc.
  - destruct S0 as [Hc Hf Hr Ht Hu Hl Ho He].
    constructor; cbn [seqRef store inflight macrotasks invoked transport];
      auto.
Qed.

Lemma run_Sound (config : UseApiRequestParam) (es : list Event) (h : Hook) :
  Sound h -> Sound (run config es h).
Proof.
  revert h; induction es as [|e es IH]; intros h S0; cbn [run]; [exact S0|].
  apply IH. now apply step_Sound.
Qed.

Lemma created_Sound (config : UseApiRequestParam) : Sound (created config).
Proof.
  constructor; cbn; try constructor; try lia; try reflexivity.
Qed.

Lemma mounted_Sound (config : UseApiRequestParam) : Sound (mounted config).
Proof.
  unfold mounted, activate. destruct (manual config); cbn [negb].
  - apply created_Sound.
  - apply sendRequest_Sound, created_Sound.
Qed.

Lemma step_accounting (config : UseApiRequestParam) (e : Event) (h : Hook) :
  seqRef (step config e h) =
    seqRef h + (if advancesCounter e then 1 else 0)
  /\ List.length (transport (step config e h)) =
     (List.length (transport h) + (if isSendRequest e then 1 else 0))%nat.
Proof.
  destruct e; cbn [step advancesCounter isSendRequest].
  - rewrite sendRequest_spec. cbn. rewrite length_app. cbn. split; lia.
  - rewrite abort_spec. cbn. split; lia.
  - rewrite mutate_spec. cbn. split; lia.
  - destruct (existsb _ _); [|split; lia].
    rewrite settle_seqRef.
    destruct (settle_transport config currentSeq s
                (mkHook (seqRef h) (store h) (reducerState h) (macrotasks h)
                   (invoked h) (console h) (transport h)
                   (removeFirst currentSeq (inflight h)))) as [-> _].
    cbn. split; lia.
  - destruct (macrotasks h); cbn; split; lia.
  - cbn. split; lia.
Qed.

Lemma run_app (config : UseApiRequestParam) (es es' : list Event) (h : Hook) :
  run config (es ++ es') h = run config es' (run config es h).
Proof.
  revert h; induction es as [|e es IH]; intro h; cbn [run app];
    [reflexivity | apply IH].
Qed.

(** Once every attempt in flight is superseded, nothing but a new call of
    [sendRequest] moves loading. *)
Lemma step_superseded (config : UseApiRequestParam) (e : Event) (h : Hook) :
  notSendRequest e = true -> allSuperseded h ->
  allSuperseded (step config e h)
  /\ loading (store (step config e h)) = loading (store h).
Proof.
  unfold allSuperseded. intros K A.
  destruct e; cbn [notSendRequest] in K; try discriminate K; cbn [step].
  - rewrite abort_spec. cbn. split; [|reflexivity].
    eapply Forall_impl; [|exact A]. cbn; intros; lia.
  - rewrite mutate_spec. cbn. now split.
  - destruct (existsb (Z.eqb currentSeq) (inflight h)) eqn:Ex; [|now split].
    apply existsb_exists in Ex as (m & Hin & Em).
    apply Z.eqb_eq in Em. subst m.
    assert (Lt : currentSeq < seqRef h)
      by (rewrite Forall_forall in A; now apply A).
    rewrite settle_seqRef.
    destruct (settle_transport config currentSeq s
                (mkHook (seqRef h) (store h) (reducerState h) (macrotasks h)
                   (invoked h) (console h) (transport h)
                   (removeFirst currentSeq (inflight h)))) as [_ ->].
    rewrite settle_stale_store by (cbn [seqRef]; lia).
    cbn [seqRef inflight store]. split; [|reflexivity].
    rewrite Forall_forall in *. intros m Hm. apply A.
    eapply removeFirst_incl; eassumption.
  - destruct (macrotasks h); now split.
  - now split.
Qed.

(** ** Further properties of the hook *)

(** X1 (application-level failure).  A done action that carries data with a
    code other than 0, with the current sequence number, keeps what the
    server sent (loading = false, the code, the message, the formatted
    payload, error = null) and its only effect is one timer task that runs
    onFail on the data and then onUnsuccessful; no callback runs during the
    dispatch, and once the pending timers have fired the trace has gained
    exactly those two calls (no onSuccess). *)
Theorem failure_action_keeps_data_and_schedules_onFail
    (config : UseApiRequestParam) (current : Z)
    (state : UseApiInternalState) (action : UseApiReducerAction)
    (d : ApiRequestData) (h : Hook) :
  type action = done -> data action = Some d -> data_code d <> 0 ->
  seq action = Some current -> seqRef h = current ->
  stateReducer config current state action =
    (mkState false (Some (data_code d)) (Some (data_message d))
       (persistedFormatResult config (data_payload d)) None,
     [SetTimeout0 [onFail d; onUnsuccessful]])
  /\ let h' := exec (dispatch config action) h in
     invoked h' = invoked h
     /\ macrotasks h' = macrotasks h ++ [[onFail d; onUnsuccessful]]
     /\ invoked (run config
                   (repeat TimerFires (List.length (macrotasks h'))) h') =
        invoked h ++ List.concat (macrotasks h) ++ [onFail d; onUnsuccessful].
Proof.
  intros Ht Hd Hc Hs Hcur.
  apply Z.eqb_neq in Hc.
  split.
  - unfold stateReducer. rewrite (isStale_current _ _ Hs), Ht, Hd, Hc.
    reflexivity.
  - cbv zeta. rewrite timers_drain. rewrite dispatch_spec. cbv zeta.
    subst current. unfold stateReducer.
    rewrite (isStale_current _ _ Hs), Ht, Hd, Hc. cbn.
    rewrite app_nil_r, concat_app. cbn. now rewrite ?app_nil_r.
Qed.

Lemma failure_action_witness :
  stateReducer wrappingConfig 1 (init wrappingConfig)
    (mkAction (Some 1) done (Some failData) None Undefined) =
    (mkState false (Some 5) (Some "no such order"%string)
       (Arr [Str "details"%string]) None,
     [SetTimeout0 [onFail failData; onUnsuccessful]]).
Proof.
  apply (failure_action_keeps_data_and_schedules_onFail wrappingConfig 1
           (init wrappingConfig)
           (mkAction (Some 1) done (Some failData) None Undefined)
           failData (mounted wrappingConfig));
    try reflexivity.
  cbn. discriminate.
Defined.

(** X2 (a done action without data).  Whatever its sequence number, a done
    action that carries no data makes the reducer return the state it was
    given, with no effect.  So when the promise of the latest attempt is
    fulfilled with a result that is not an error and has no data, loading
    stays true, no lifecycle callback is scheduled, and only the modal
    presentation is. *)
Theorem done_without_data_changes_nothing
    (config : UseApiRequestParam) (current : Z)
    (state : UseApiInternalState) (action : UseApiReducerAction)
    (h : Hook) (args : option ManualSendParam) (r : ApiRequestResult) :
  type action = done -> data action = None ->
  result_state r = ApiRequestStateEnum.success -> result_data r = None ->
  stateReducer config current state action = (state, [])
  /\ let sent := exec (sendRequest config args) h in
     let h' := exec (onFulfilled config (seqRef sent) r) sent in
     store h' = store sent
     /\ loading (store h') = true
     /\ invoked h' = invoked sent
     /\ macrotasks h' = macrotasks sent ++ [[popModalOnApiResult r]].
Proof.
  intros Ht Hd Hr Hn. split.
  - unfold stateReducer. rewrite Ht, Hd.
    now destruct (isStale current action).
  - cbv zeta. rewrite onFulfilled_spec. cbv zeta.
    unfold settlementAction. rewrite Hr, Hn. unfold stateReducer.
    rewrite isStale_current by reflexivity.
    cbn [type data fst snd Object_assign scheduled called flat_map store
         invoked macrotasks app].
    rewrite app_nil_r. rewrite sendRequest_spec. cbn. now repeat split.
Qed.

Lemma done_without_data_witness :
  stateReducer plainConfig 1 (init plainConfig)
    (mkAction (Some 1) done None None Undefined) = (init plainConfig, [])
  /\ let sent := exec (sendRequest plainConfig None) (created plainConfig) in
     let h' := exec (onFulfilled plainConfig (seqRef sent) emptySuccess) sent in
     store h' = store sent
     /\ loading (store h') = true
     /\ invoked h' = invoked sent
     /\ macrotasks h' = macrotasks sent ++ [[popModalOnApiResult emptySuccess]].
Proof.
  apply (done_without_data_changes_nothing plainConfig 1 (init plainConfig)
           (mkAction (Some 1) done None None Undefined)
           (created plainConfig) None emptySuccess); reflexivity.
Defined.

(** X3 (a stale response still reaches the modal presenter).  When the
    promise of a superseded attempt is fulfilled, the handler changes
    nothing of the state and schedules no lifecycle callback, but it does
    schedule the modal presentation of that result. *)
Theorem stale_fulfilment_still_schedules_modal
    (config : UseApiRequestParam) (h : Hook) (n : Z) (r : ApiRequestResult) :
  n <> seqRef h ->
  exec (onFulfilled config n r) h =
  mkHook (seqRef h) (store h) (reducerState h)
    (macrotasks h ++ [[popModalOnApiResult r]]) (invoked h) (console h)
    (transport h) (inflight h).
Proof.
  intro D. rewrite onFulfilled_spec. cbv zeta.
  rewrite (stateReducer_stale config (seqRef h) n _ _
             (settlementAction_seq n r) D).
  cbn. now rewrite !app_nil_r.
Qed.

Lemma stale_fulfilment_witness :
  let h := exec (sendRequest plainConfig None) (mounted plainConfig) in
  exec (onFulfilled plainConfig 1 okResult) h =
  mkHook 2 (store h) (reducerState h) [[popModalOnApiResult okResult]]
    (invoked h) (console h) (transport h) (inflight h).
Proof.
  apply (stale_fulfilment_still_schedules_modal plainConfig
           (exec (sendRequest plainConfig None) (mounted plainConfig))
           1 okResult).
  cbn. lia.
Defined.

(** X4 (attempt numbers are fresh).  In every instance the event loop can
    reach from the mounted one, the numbers captured by the attempts in
    flight are pairwise different and lie between 1 and the counter; so the
    number the next [sendRequest] captures belongs to no attempt in flight,
    and at most one attempt can pass the reducer's guard. *)
Theorem attempt_numbers_are_fresh
    (config : UseApiRequestParam) (evs : list Event)
    (args : option ManualSendParam) :
  let h := run config evs (mounted config) in
  NoDup (inflight h)
  /\ (forall n, In n (inflight h) -> 1 <= n <= seqRef h)
  /\ ~ In (seqRef (exec (sendRequest config args) h)) (inflight h)
  /\ (List.length (filter (Z.eqb (seqRef h)) (inflight h)) <= 1)%nat.
Proof.
  cbv zeta.
  destruct (run_Sound config evs _ (mounted_Sound config))
    as [Hc Hf Hr _ _ _ _ _].
  rewrite Forall_forall in Hr.
  split; [exact Hf|]. split; [exact Hr|]. split.
  - rewrite sendRequest_spec. cbn [seqRef]. intro Hin.
    specialize (Hr _ Hin). lia.
  - clear Hr. induction (inflight (run config evs (mounted config)))
      as [|m l IH]; cbn; [lia|].
    apply NoDup_cons_iff in Hf as [Hm Hf].
    destruct (Z.eqb_spec (seqRef (run config evs (mounted config))) m)
      as [E|D]; [|now apply IH].
    cbn. subst m.
    assert (Z0 : filter (Z.eqb (seqRef (run config evs (mounted config)))) l
                 = []).
    { clear IH Hf. induction l as [|k l IHl]; cbn; [reflexivity|].
      destruct (Z.eqb_spec (seqRef (run config evs (mounted config))) k)
        as [E|D].
      - exfalso. apply Hm. now left.
      - apply IHl. intro Hin. apply Hm. now right. }
    rewrite Z0. cbn. lia.
Qed.

(** X5 (what moves the counter and the transport).  Along any run of
    events, the counter grows by exactly the number of calls of
    [sendRequest] and [abort], and the number of transport calls by exactly
    the number of calls of [sendRequest]: settlements, mutations, timers and
    renders touch neither. *)
Theorem counter_and_transport_accounting
    (config : UseApiRequestParam) (es : list Event) (h : Hook) :
  seqRef (run config es h) =
    seqRef h + Z.of_nat (countEvents advancesCounter es)
  /\ List.length (transport (run config es h)) =
     (List.length (transport h) + countEvents isSendRequest es)%nat.
Proof.
  revert h; induction es as [|e es IH]; intro h; cbn [run].
  - cbn. split; lia.
  - destruct (IH (step config e h)) as [Es Et].
    destruct (step_accounting config e h) as [Ss St].
    rewrite Es, Et, Ss, St. unfold countEvents. cbn [filter].
    destruct e; cbn [advancesCounter isSendRequest List.length]; split; lia.
Qed.



(** X7 (order of the callbacks of a response).  When the promise of the
    latest attempt is fulfilled, no callback runs in the handler itself;
    once the pending timers have fired, the trace has gained the lifecycle
    callbacks of the result (onSuccess; or onFail then onUnsuccessful; or
    onError then onUnsuccessful; or none for a success without data)
    followed by the modal presentation, after every task that was pending
    before. *)
Theorem response_callbacks_precede_modal
    (config : UseApiRequestParam) (h : Hook) (r : ApiRequestResult) :
  let h' := exec (onFulfilled config (seqRef h) r) h in
  invoked h' = invoked h
  /\ invoked (run config
                (repeat TimerFires (List.length (macrotasks h'))) h') =
     invoked h ++ List.concat (macrotasks h) ++ outcomeCallbacks r
       ++ [popModalOnApiResult r].
Proof.
  cbv zeta. rewrite timers_drain, onFulfilled_spec. cbv zeta.
  cbn [invoked macrotasks].
  destruct (settlement_effects config (seqRef h) (seqRef h) (store h) r)
    as (Ec & _ & Es).
  rewrite Ec, Es, Z.eqb_refl, !app_nil_r.
  split; [reflexivity|].
  rewrite !concat_app. f_equal. f_equal.
  destruct (outcomeCallbacks r); cbn; now rewrite ?app_nil_r.
Qed.

(** X8 (the updater reads the last render).  Two calls of [mutate] with
    updaters and no render in between do not compose: the second updater is
    applied to the payload of the last render and the result of the first is
    lost.  With a render in between they compose. *)
Theorem mutate_updater_reads_last_render
    (config : UseApiRequestParam) (h : Hook) (f g : any -> any) :
  payload (store (exec (mutate config (Updater g))
                    (exec (mutate config (Updater f)) h))) =
    g (payload (reducerState h))
  /\ payload (store (exec (mutate config (Updater g))
                       (step config Render
                          (exec (mutate config (Updater f)) h)))) =
     g (f (payload (reducerState h))).
Proof.
  split.
  - now rewrite !mutate_spec.
  - cbn [step]. now rewrite !mutate_spec.
Qed.

(** X9 (what can change the state when a promise settles).  If the
    settlement of a promise changes the held state, then the promise was
    fulfilled (not rejected), its attempt was in flight, and its attempt
    carries the counter's present value. *)
Theorem only_latest_fulfilment_changes_state
    (config : UseApiRequestParam) (h : Hook) (n : Z) (s : Settlement) :
  store (step config (PromiseSettles n s) h) <> store h ->
  n = seqRef h /\ In n (inflight h) /\ exists r, s = Fulfilled r.
Proof.
  cbn [step]. intro Changed.
  destruct (existsb (Z.eqb n) (inflight h)) eqn:Ex;
    [|now contradiction Changed].
  apply existsb_exists in Ex as (m & Hin & Em).
  apply Z.eqb_eq in Em. subst m.
  destruct (Z.eq_dec n (seqRef h)) as [E|D].
  - split; [exact E|]. split; [exact Hin|].
    destruct s as [r|reason]; [now exists r|].
    now contradiction Changed.
  - exfalso. apply Changed.
    now rewrite settle_stale_store.
Qed.

Lemma only_latest_fulfilment_witness :
  1 = seqRef (mounted plainConfig)
  /\ In 1 (inflight (mounted plainConfig))
  /\ exists r, Fulfilled okResult = Fulfilled r.
Proof.
  apply (only_latest_fulfilment_changes_state plainConfig
           (mounted plainConfig) 1 (Fulfilled okResult)).
  vm_compute. discriminate.
Defined.

(** X10 (abort does not end the loading state).  When [sendRequest] is
    called, a render follows (so that the start action is reduced while its
    attempt is the latest) and [abort] is called after it, loading is true
    and stays true through every later event (settlements of any attempt,
    mutations, timers, renders, further aborts) until [sendRequest] is
    called again: no response can set it back to false. *)
Theorem abort_leaves_loading_on
    (config : UseApiRequestParam) (evs0 evs : list Event)
    (args : option ManualSendParam) :
  forallb notSendRequest evs = true ->
  loading (store (run config
                    (evs0 ++ [CallSendRequest args; Render; CallAbort] ++ evs)
                    (mounted config))) = true.
Proof.
  intro K. rewrite !run_app. cbn [run].
  set (h := run config evs0 (mounted config)).
  pose proof (run_inflightBounded config evs0 _
                (mounted_inflightBounded config)) as B.
  fold h in B. unfold inflightBounded in B.
  set (w0 := step config CallAbort
               (step config Render (step config (CallSendRequest args) h))).
  assert (A : allSuperseded w0).
  { unfold allSuperseded, w0. cbn [step]. rewrite abort_spec.
    cbn [seqRef inflight]. rewrite sendRequest_spec.
    cbn [seqRef inflight]. apply Forall_app; split.
    - eapply Forall_impl; [|exact B]. cbn; intros; lia.
    - repeat constructor. lia. }
  assert (L : loading (store w0) = true).
  { unfold w0. cbn [step]. rewrite abort_spec. cbn [store].
    now rewrite sendRequest_spec. }
  revert A L K. generalize w0 as w. clear w0.
  induction evs as [|e evs IH]; intros w A L K; cbn [run]; [exact L|].
  cbn [forallb] in K. apply andb_prop in K as [Ke K].
  destruct (step_superseded config e w Ke A) as [A' L'].
  apply IH; [exact A' | now rewrite L' | exact K].
Qed.

Lemma abort_leaves_loading_on_witness :
  loading (store (run plainConfig
                    ([PromiseSettles 1 (Fulfilled okResult)]
                     ++ [CallSendRequest None; Render; CallAbort]
                     ++ [PromiseSettles 2 (Fulfilled okResult);
                         TimerFires; Render; CallAbort;
                         CallMutate (Literal (Num 5))])
                    (mounted plainConfig))) = true.
Proof.
  apply (abort_leaves_loading_on plainConfig
           [PromiseSettles 1 (Fulfilled okResult)]
           [PromiseSettles 2 (Fulfilled okResult);
            TimerFires; Render; CallAbort;
            CallMutate (Literal (Num 5))] None).
  reflexivity.
Defined.

(** X11 (onUnsuccessful accompanies every failure).  In every instance the
    event loop can reach from the mounted one, onUnsuccessful has run
    exactly as many times as onFail and onError together, and every pending
    timer task is one of the four bodies the hook schedules (onSuccess
    alone; onFail then onUnsuccessful; onError then onUnsuccessful; the
    modal presentation alone). *)
Theorem onUnsuccessful_accompanies_every_failure
    (config : UseApiRequestParam) (evs : list Event) :
  let h := run config evs (mounted config) in
  countIf isOnUnsuccessful (invoked h) = countIf isFailure (invoked h)
  /\ Forall (fun t => timerTaskShape t = true) (macrotasks h).
Proof.
  cbv zeta.
  now destruct (run_Sound config evs _ (mounted_Sound config)).
Qed.

(** X12 (onLoad at most once per request).  In every instance the event
    loop can reach from the mounted one, onLoad has run no more often than
    the transport was called, and no pending timer task contains it: a
    start action runs onLoad at most once, and never from a timer. *)
Theorem onLoad_at_most_once_per_transport_call
    (config : UseApiRequestParam) (evs : list Event) :
  let h := run config evs (mounted config) in
  (countIf isOnLoad (invoked h) <= List.length (transport h))%nat
  /\ Forall (fun t => countIf isOnLoad t = 0%nat) (macrotasks h).
Proof.
  cbv zeta.
  destruct (run_Sound config evs _ (mounted_Sound config))
    as [_ _ _ Ht _ Hl _ _].
  split; [exact Hl|].
  eapply Forall_impl; [|exact Ht].
  intros t Sh. now destruct (timerTaskShape_counts t Sh) as (_ & Z0 & _).
Qed.

(** X13 (at most one outcome per attempt).  In every instance the event
    loop can reach from the mounted one, the outcome callbacks (onSuccess,
    onFail, onError) that have run or are pending are no more than the
    transport calls whose promise has settled: an attempt reports at most
    one outcome, and an attempt in flight has reported none. *)
Theorem at_most_one_outcome_per_attempt
    (config : UseApiRequestParam) (evs : list Event) :
  let h := run config evs (mounted config) in
  (countIf isOutcome (invoked h ++ List.concat (macrotasks h))
   + List.length (inflight h) <= List.length (transport h))%nat.
Proof.
  cbv zeta.
  now destruct (run_Sound config evs _ (mounted_Sound config)).
Qed.

(** X14 (an error excludes a code and a message).  In every instance the
    event loop can reach from the mounted one, a state whose error is set
    has code = null and message = null, and a state with a code or a
    message has error = null. *)
Theorem error_excludes_code_and_message
    (config : UseApiRequestParam) (evs : list Event) :
  let h := run config evs (mounted config) in
  (error (store h) <> None ->
   code (store h) = None /\ message (store h) = None)
  /\ (code (store h) <> None \/ message (store h) <> None ->
      error (store h) = None).
Proof.
  cbv zeta.
  destruct (run_Sound config evs _ (mounted_Sound config))
    as [_ _ _ _ _ _ _ He].
  split; [exact He|].
  intros Shown. destruct (error (store (run config evs (mounted config))))
    as [e|] eqn:E; [|reflexivity].
  destruct He as [Hc Hm]; [discriminate|].
  destruct Shown as [C|M]; [now contradiction C | now contradiction M].
Qed.

Lemma error_excludes_code_and_message_witness :
  let failed :=
    run plainConfig [PromiseSettles 1 (Fulfilled failedResult)]
      (mounted plainConfig) in
  let answered :=
    run plainConfig [PromiseSettles 1 (Fulfilled okResult)]
      (mounted plainConfig) in
  (code (store failed) = None /\ message (store failed) = None)
  /\ error (store answered) = None.
Proof.
  split.
  - apply (proj1 (error_excludes_code_and_message plainConfig
                    [PromiseSettles 1 (Fulfilled failedResult)])).
    vm_compute. discriminate.
  - apply (proj2 (error_excludes_code_and_message plainConfig
                    [PromiseSettles 1 (Fulfilled okResult)])).
    left. vm_compute. discriminate.
Defined.
